(** * Guest thread state and memory-search front-end of the emulator

    A shallow embedding of

    - [src/xenia/cpu/thread_state.cc]: the constructor and the destructor of
      [ThreadState], the object that ties one register file block (host
      memory) and one guest stack (guest heap) to a single lifetime;
    - [src/xenia/app/emulator_window.h]: [EmulatorWindow::ToggleMemorySearch]
      and the floating-point branch of [MemorySearchDialog::OnDraw].

    Machine integers are [Z] with the wrap-around written where the C++ types
    make it happen; host memory, the guest heap and the dialog table are
    finite maps; the allocators, which live outside these two files, are
    instrumented stubs that replay a scripted list of answers. *)

From Stdlib Require Import ZArith List Lia.
From Stdlib Require Import Floats.SpecFloat.
From stdpp Require Import base option list gmap sorting.

(** [uint32_t] arithmetic: the result of an operation is reduced modulo 2^32. *)
Definition uint32_wrap (z : Z) : Z := (z mod 2 ^ 32)%Z.

(** ** The CPU side: [ThreadState] *)

Module Cpu.

Local Open Scope Z_scope.

(** Modelled from the spec: the layout of [xe_ppc_state_t], whose declaration
    is in a header outside this tree.  The spec lists a general-purpose
    register array, condition/status fields, floating-point/vector register
    storage, a guest-memory-base pointer and two back-references; the source
    names [r], [membase], [processor] and [thread_state].  Registers are
    unsigned 64-bit values, pointers are host addresses. *)
Record xe_ppc_state_t : Type := mk_ppc_state {
  r : list Z;            (* general-purpose registers r[0..31] *)
  cr : Z;                (* condition field *)
  xer : Z;               (* status field *)
  fpscr : Z;             (* floating-point status field *)
  fpr : list Z;          (* floating-point registers, raw bits *)
  vr : list Z;           (* vector registers, raw bits *)
  membase : Z;           (* host address of guest address 0 *)
  processor : Z;         (* Processor* back-reference *)
  thread_state : Z       (* ThreadState* back-reference *)
}.

(** What [memset (p, 0, sizeof (xe_ppc_state_t))] leaves in the block. *)
Definition zero_ppc_state : xe_ppc_state_t :=
  {| r := replicate 32 0; cr := 0; xer := 0; fpscr := 0;
     fpr := replicate 32 0; vr := replicate 128 0;
     membase := 0; processor := 0; thread_state := 0 |}.

Definition set_membase (x : Z) (b : xe_ppc_state_t) : xe_ppc_state_t :=
  {| r := r b; cr := cr b; xer := xer b; fpscr := fpscr b; fpr := fpr b;
     vr := vr b; membase := x; processor := processor b;
     thread_state := thread_state b |}.

Definition set_processor (x : Z) (b : xe_ppc_state_t) : xe_ppc_state_t :=
  {| r := r b; cr := cr b; xer := xer b; fpscr := fpscr b; fpr := fpr b;
     vr := vr b; membase := membase b; processor := x;
     thread_state := thread_state b |}.

Definition set_thread_state (x : Z) (b : xe_ppc_state_t) : xe_ppc_state_t :=
  {| r := r b; cr := cr b; xer := xer b; fpscr := fpscr b; fpr := fpr b;
     vr := vr b; membase := membase b; processor := processor b;
     thread_state := x |}.

(** [b->r[i] = x], for an index inside the array. *)
Definition set_r (i : nat) (x : Z) (b : xe_ppc_state_t) : xe_ppc_state_t :=
  {| r := <[i := x]> (r b); cr := cr b; xer := xer b; fpscr := fpscr b;
     fpr := fpr b; vr := vr b; membase := membase b;
     processor := processor b; thread_state := thread_state b |}.

(** Modelled from the spec: [sizeof (xe_ppc_state_t)] for the layout above
    (32 and 32 registers of 8 bytes, 128 of 16, six 8-byte fields).  Only
    passed on to the host allocator. *)
Definition sizeof_xe_ppc_state_t : Z := 32 * 8 + 32 * 8 + 128 * 16 + 6 * 8.

(** The calls the component makes on its collaborators, in the order they
    happen; recorded by the instrumented stubs below. *)
Inductive event : Type :=
  | EvMemoryRetain
  | EvHeapAlloc (base_addr size flags result : Z)
  | EvMallocAligned (size result : Z)
  | EvFreeAligned (p : Z)
  | EvHeapFree (addr flags : Z)
  | EvMemoryRelease.

(** The world the constructor and the destructor act on: the shared guest
    memory object of the Processor (reference count, translation base, guest
    heap), the host memory handed out by the aligned allocator, and the
    instrumentation.

    [heap_script] and [host_script] are the answers the two allocators will
    give to the next requests: a guest address, resp. a host pointer with
    the stale contents of the block it points to.  The answer 0, or an empty
    script, is an allocator that cannot satisfy the request. *)
Record world : Type := mk_world {
  mem_refs : nat;
  mem_base : Z;
  heap_live : gmap Z Z;                       (* base ↦ size *)
  heap_script : list Z;
  host_blocks : gmap Z xe_ppc_state_t;        (* pointer ↦ contents *)
  host_script : list (Z * xe_ppc_state_t);
  trace : list event
}.

Definition set_mem_refs (n : nat) (w : world) : world :=
  {| mem_refs := n; mem_base := mem_base w; heap_live := heap_live w;
     heap_script := heap_script w; host_blocks := host_blocks w;
     host_script := host_script w; trace := trace w |}.

Definition set_heap (live : gmap Z Z) (script : list Z) (w : world) : world :=
  {| mem_refs := mem_refs w; mem_base := mem_base w; heap_live := live;
     heap_script := script; host_blocks := host_blocks w;
     host_script := host_script w; trace := trace w |}.

Definition set_host (blocks : gmap Z xe_ppc_state_t)
    (script : list (Z * xe_ppc_state_t)) (w : world) : world :=
  {| mem_refs := mem_refs w; mem_base := mem_base w; heap_live := heap_live w;
     heap_script := heap_script w; host_blocks := blocks;
     host_script := script; trace := trace w |}.

Definition log (e : event) (w : world) : world :=
  {| mem_refs := mem_refs w; mem_base := mem_base w; heap_live := heap_live w;
     heap_script := heap_script w; host_blocks := host_blocks w;
     host_script := host_script w; trace := trace w ++ [e] |}.

(** *** A state monad with faults *)

Inductive fault : Type :=
  | AssertionFailure        (* an XEASSERT does not hold *)
  | NullDereference.        (* a store through a pointer that is not a block *)

(** A run either completes with a result, or stops at a fault; in both cases
    [w] is the world it leaves behind. *)
Inductive outcome (A : Type) : Type :=
  | Done (a : A) (w : world)
  | Fault (e : fault) (w : world).
Arguments Done {A} a w.
Arguments Fault {A} e w.

Definition final_world {A : Type} (o : outcome A) : world :=
  match o with
  | Done _ w => w
  | Fault _ w => w
  end.

Definition M (A : Type) : Type := world → outcome A.

#[global] Instance M_ret : MRet M := λ A a w, Done a w.
#[global] Instance M_bind : MBind M := λ A B k m w,
  match m w with
  | Done a w' => k a w'
  | Fault e w' => Fault e w'
  end.
#[global] Instance M_throw : MThrow fault M := λ A e w, Fault e w.

(** *** The collaborators *)

(** The only guest memory object there is: the Processor's. *)
Inductive xe_memory_ref : Type := TheMemory.

(** Modelled from the spec: [Processor::memory ()], a getter outside this
    tree.  It hands out a counted reference, the one the destructor gives
    back with [xe_memory_release]. *)
Definition Processor_memory (processor : Z) : M xe_memory_ref := λ w,
  Done TheMemory (log EvMemoryRetain (set_mem_refs (S (mem_refs w)) w)).

(** Modelled from the spec: [GuestHeap.Allocate (size) → guest_address |
    Failure].  The source stores the result in an integer without a test, so
    a failure is the null guest address 0. *)
Definition xe_memory_heap_alloc (memory : xe_memory_ref)
    (base_addr size flags : Z) : M Z := λ w,
  match heap_script w with
  | a :: rest =>
      if a =? 0 then Done 0 (log (EvHeapAlloc base_addr size flags 0)
                               (set_heap (heap_live w) rest w))
      else Done a (log (EvHeapAlloc base_addr size flags a)
                     (set_heap (<[a := size]> (heap_live w)) rest w))
  | [] => Done 0 (log (EvHeapAlloc base_addr size flags 0) w)
  end.

(** Modelled from the spec: [GuestHeap.Free (guest_address)]. *)
Definition xe_memory_heap_free (memory : xe_memory_ref) (addr flags : Z)
    : M unit := λ w,
  Done tt (log (EvHeapFree addr flags)
             (set_heap (delete addr (heap_live w)) (heap_script w) w)).

(** Modelled from the spec: [Processor.GuestMemoryTranslationBase ()], here
    the host address of a guest address. *)
Definition xe_memory_addr (memory : xe_memory_ref) (guest_addr : Z) : M Z :=
  λ w, Done (mem_base w + guest_addr) w.

(** Modelled from the spec: dropping a reference to the memory object. *)
Definition xe_memory_release (memory : xe_memory_ref) : M unit := λ w,
  Done tt (log EvMemoryRelease (set_mem_refs (Nat.pred (mem_refs w)) w)).

(** Modelled from the spec: [HostAllocator.AllocateAligned (size,
    alignment=16) → host_pointer | Failure]; a failure is the null pointer.
    The new block holds whatever was in that memory before. *)
Definition xe_malloc_aligned (size : Z) : M Z := λ w,
  match host_script w with
  | (p, stale) :: rest =>
      if p =? 0 then Done 0 (log (EvMallocAligned size 0)
                               (set_host (host_blocks w) rest w))
      else Done p (log (EvMallocAligned size p)
                     (set_host (<[p := stale]> (host_blocks w)) rest w))
  | [] => Done 0 (log (EvMallocAligned size 0) w)
  end.

(** Modelled from the spec: [HostAllocator.Free (host_pointer)]. *)
Definition xe_free_aligned (p : Z) : M unit := λ w,
  Done tt (log (EvFreeAligned p)
             (set_host (delete p (host_blocks w)) (host_script w) w)).

(** Modelled from the spec: the macro [XEASSERT], defined outside this tree.
    A violated assertion is a contract violation that stops the run. *)
Definition XEASSERT (cond : bool) : M unit :=
  if cond then mret tt else mthrow AssertionFailure.

(** A write through the pointer [p] to a register file: [p] has to be a
    block of host memory, which the null pointer never is. *)
Definition store (p : Z) (g : xe_ppc_state_t → xe_ppc_state_t) : M unit :=
  λ w,
  if p =? 0 then Fault NullDereference w
  else
    match host_blocks w !! p with
    | Some b =>
        Done tt (set_host (<[p := g b]> (host_blocks w)) (host_script w) w)
    | None => Fault NullDereference w
    end.

(** Modelled from the spec: the macro [xe_zero_struct (p, size)], defined
    outside this tree; it zero-initialises every field of the block. *)
Definition xe_zero_struct (p : Z) (size : Z) : M unit :=
  store p (λ _, zero_ppc_state).

(** *** [ThreadState] *)

(** Modelled from the spec: the members of [ThreadState], declared in a
    header outside this tree.  [stack_address_] is the spec's [stack_base];
    guest addresses are 32-bit, as [thread_state_address] is in the
    signature of the constructor. *)
Record ThreadState : Type := mk_ThreadState {
  stack_size_ : Z;
  thread_state_address_ : Z;
  thread_id_ : Z;
  memory_ : xe_memory_ref;
  stack_address_ : Z;
  ppc_state_ : Z
}.

(** [ThreadState::ThreadState], building the object at the address [this].
    The three integer arguments are [uint32_t]; [stack_address_] is a 32-bit
    guest address like them, so that the sum for r[1] is a 32-bit sum, which
    the assignment then widens to the 64-bit register.  Widening a 32-bit
    value to r[13] leaves it as it is. *)
Definition ThreadState_ctor (this processor : Z)
    (stack_size thread_state_address thread_id : Z) : M ThreadState :=
  memory ← Processor_memory processor;
  stack_address ← xe_memory_heap_alloc memory 0 stack_size 0;
  ppc_state ← xe_malloc_aligned sizeof_xe_ppc_state_t;
  XEASSERT (Z.land ppc_state 0xF =? 0);;
  xe_zero_struct ppc_state sizeof_xe_ppc_state_t;;
  base ← xe_memory_addr memory 0;
  store ppc_state (set_membase base);;
  store ppc_state (set_processor processor);;
  store ppc_state (set_thread_state this);;
  store ppc_state (set_r 1 (uint32_wrap (stack_address + stack_size)));;
  store ppc_state (set_r 13 thread_state_address);;
  mret {| stack_size_ := stack_size;
          thread_state_address_ := thread_state_address;
          thread_id_ := thread_id;
          memory_ := memory;
          stack_address_ := stack_address;
          ppc_state_ := ppc_state |}.

(** [ThreadState::~ThreadState]. *)
Definition ThreadState_dtor (this : ThreadState) : M unit :=
  xe_free_aligned (ppc_state_ this);;
  xe_memory_heap_free (memory_ this) (stack_address_ this) 0;;
  xe_memory_release (memory_ this).

(** *** Observations on a world *)

(** The answer the guest heap gives to the next request ([stack_base] of the
    spec when a constructor runs in this world), and the host allocator's. *)
Definition heap_answer (w : world) : Z :=
  match heap_script w with
  | a :: _ => a
  | [] => 0
  end.

Definition host_answer (w : world) : Z :=
  match host_script w with
  | (p, _) :: _ => p
  | [] => 0
  end.

(** The stale contents of the block the host allocator answers with. *)
Definition host_stale (w : world) : xe_ppc_state_t :=
  match host_script w with
  | (_, stale) :: _ => stale
  | [] => zero_ppc_state
  end.

(** The register r[i] of the register file at [p], when [p] is a block. *)
Definition gpr (w : world) (p : Z) (i : nat) : option Z :=
  b ← host_blocks w !! p; r b !! i.

(** Outstanding allocations of the two allocators. *)
Definition host_outstanding (w : world) : nat := size (host_blocks w).
Definition heap_outstanding (w : world) : nat := size (heap_live w).

(** The events a run added to the trace of the world [w] it started in. *)
Definition new_events (w w' : world) : list event :=
  drop (length (trace w)) (trace w').

Definition is_malloc_aligned (e : event) : bool :=
  match e with EvMallocAligned _ _ => true | _ => false end.

Definition is_heap_alloc (e : event) : bool :=
  match e with EvHeapAlloc _ _ _ _ => true | _ => false end.

(** Some event satisfying [first] is followed, later in [t], by one
    satisfying [second]. *)
Fixpoint happens_before (first second : event → bool) (t : list event)
    : bool :=
  match t with
  | [] => false
  | e :: t' => (first e && existsb second t') || happens_before first second t'
  end.

(** The contract of the allocators, outside this tree: the host allocator
    answers with multiples of 16, and neither allocator hands out what is
    still outstanding. *)
Definition host_allocator_aligned (w : world) : Prop :=
  Forall (λ ps : Z * xe_ppc_state_t, ps.1 mod 16 = 0) (host_script w).

Definition allocators_answer_fresh (w : world) : Prop :=
  heap_live w !! heap_answer w = None ∧ host_blocks w !! host_answer w = None.

(** *** The constructor, in closed form *)

(** The register file the constructor leaves behind. *)
Definition constructed_ppc_state (this processor stack_size
    thread_state_address : Z) (w : world) : xe_ppc_state_t :=
  set_r 13 thread_state_address
    (set_r 1 (uint32_wrap (heap_answer w + stack_size))
       (set_thread_state this
          (set_processor processor
             (set_membase (mem_base w + 0) zero_ppc_state)))).

(** The world after the two allocations. *)
Definition allocated_world (stack_size : Z) (blocks : gmap Z xe_ppc_state_t)
    (w : world) : world :=
  {| mem_refs := S (mem_refs w);
     mem_base := mem_base w;
     heap_live := if heap_answer w =? 0 then heap_live w
                  else <[heap_answer w := stack_size]> (heap_live w);
     heap_script := tail (heap_script w);
     host_blocks := blocks;
     host_script := tail (host_script w);
     trace := trace w ++ [EvMemoryRetain;
                          EvHeapAlloc 0 stack_size 0 (heap_answer w);
                          EvMallocAligned sizeof_xe_ppc_state_t (host_answer w)]
  |}.

Definition constructed_ThreadState (stack_size thread_state_address
    thread_id : Z) (w : world) : ThreadState :=
  {| stack_size_ := stack_size;
     thread_state_address_ := thread_state_address;
     thread_id_ := thread_id;
     memory_ := TheMemory;
     stack_address_ := heap_answer w;
     ppc_state_ := host_answer w |}.

(** *** The claims of the specification that the code does not meet *)

(** The stack pointer is the sum of [stack_base] and [stack_size] as
    integers. *)
Definition stack_pointer_is_exact_sum (this processor stack_size
    thread_state_address thread_id : Z) (w : world) : Prop :=
  0 < stack_size →
  ∀ ctx w',
    ThreadState_ctor this processor stack_size thread_state_address
      thread_id w = Done ctx w' →
    gpr w' (ppc_state_ ctx) 1 = Some (heap_answer w + stack_size).

(** A failed allocation yields no context and leaves both allocators with
    what they had before the call. *)
Definition failed_create_is_clean (this processor stack_size
    thread_state_address thread_id : Z) (w : world) : Prop :=
  heap_answer w = 0 ∨ host_answer w = 0 →
  let o := ThreadState_ctor this processor stack_size thread_state_address
             thread_id w in
  (∀ ctx w', o ≠ Done ctx w') ∧
  host_outstanding (final_world o) = host_outstanding w ∧
  heap_outstanding (final_world o) = heap_outstanding w.

(** The register file block is requested before the guest stack. *)
Definition register_file_allocated_first (this processor stack_size
    thread_state_address thread_id : Z) (w : world) : Prop :=
  let o := ThreadState_ctor this processor stack_size thread_state_address
             thread_id w in
  happens_before is_malloc_aligned is_heap_alloc
    (new_events w (final_world o)) = true.

(** *** Concrete worlds *)

Definition stale_ppc_state : xe_ppc_state_t :=
  {| r := [7; 7]; cr := 5; xer := 1; fpscr := 2; fpr := []; vr := [9];
     membase := 3; processor := 4; thread_state := 99 |}.

(** The scenario of the specification: the heap answers 0x70000000. *)
Definition scenario_world : world :=
  {| mem_refs := 1; mem_base := 0x100000000;
     heap_live := ∅; heap_script := [0x70000000];
     host_blocks := ∅; host_script := [(0x5000, stale_ppc_state)];
     trace := [] |}.

(** The context and the world this scenario ends in. *)
Definition scenario_context : ThreadState :=
  constructed_ThreadState 65536 0x7FE00000 1 scenario_world.

Definition scenario_constructed : world :=
  allocated_world 65536
    (<[0x5000 := constructed_ppc_state 0x9000 0x8000 65536 0x7FE00000
                   scenario_world]> ∅)
    scenario_world.

(** The guest heap hands out the last 64 KiB of the 32-bit address space. *)
Definition top_of_memory_world : world :=
  {| mem_refs := 1; mem_base := 0x100000000;
     heap_live := ∅; heap_script := [0xFFFF0000];
     host_blocks := ∅; host_script := [(0x5000, stale_ppc_state)];
     trace := [] |}.

(** The guest heap is exhausted. *)
Definition heap_exhausted_world : world :=
  {| mem_refs := 1; mem_base := 0x100000000;
     heap_live := ∅; heap_script := [];
     host_blocks := ∅; host_script := [(0x5000, stale_ppc_state)];
     trace := [] |}.

(** The host allocator is exhausted. *)
Definition host_exhausted_world : world :=
  {| mem_refs := 1; mem_base := 0x100000000;
     heap_live := ∅; heap_script := [0x70000000];
     host_blocks := ∅; host_script := [];
     trace := [] |}.

(** The host allocator answers with an address that is not a multiple of
    16. *)
Definition misaligned_world : world :=
  {| mem_refs := 1; mem_base := 0x100000000;
     heap_live := ∅; heap_script := [0x70000000];
     host_blocks := ∅; host_script := [(0x5008, stale_ppc_state)];
     trace := [] |}.

(** Two guest threads are created one after the other. *)
Definition two_threads_world : world :=
  {| mem_refs := 1; mem_base := 0x100000000;
     heap_live := ∅; heap_script := [0x70000000; 0x70020000];
     host_blocks := ∅;
     host_script := [(0x5000, stale_ppc_state); (0x6000, stale_ppc_state)];
     trace := [] |}.

Definition first_thread : ThreadState :=
  constructed_ThreadState 65536 0x7FE00000 1 two_threads_world.

Definition first_thread_world : world :=
  final_world
    (ThreadState_ctor 0x9000 0x8000 65536 0x7FE00000 1 two_threads_world).

Definition second_thread : ThreadState :=
  constructed_ThreadState 65536 0x7FE10000 2 first_thread_world.

Definition second_thread_world : world :=
  final_world
    (ThreadState_ctor 0x9100 0x8000 65536 0x7FE10000 2 first_thread_world).

End Cpu.

(** ** The front-end: memory-search dialogs of [EmulatorWindow] *)

Module App.

Local Open Scope Z_scope.

Definition BASE_ADDRESS : Z := 0x82450000.
Definition BYTES_PER_CHUNK : Z := 65536.

(** [std::type_index]: one opaque identity per C++ type. *)
Record type_index : Type := TypeIndex { type_hash : positive }.

#[global] Instance type_index_eq_dec : EqDecision type_index.
Proof. solve_decision. Defined.

#[global] Instance type_index_countable : Countable type_index :=
  inj_countable' type_hash TypeIndex (λ t, match t with TypeIndex _ => eq_refl end).

(** The four instantiations the window titles know. *)
Definition typeid_uint8_t : type_index := TypeIndex 1.
Definition typeid_uint16_t : type_index := TypeIndex 2.
Definition typeid_uint32_t : type_index := TypeIndex 3.
Definition typeid_float : type_index := TypeIndex 4.

(** [MemorySearchDialog<search_t>]: the dialog of one search type with the
    guest addresses it currently retains. *)
Record MemorySearchDialog : Type := mk_dialog {
  search_t : type_index;
  memory_cells : list Z
}.

(** [new MemorySearchDialog<search_t> (imgui_drawer_.get (), *this)]. *)
Definition new_MemorySearchDialog (T : type_index) : MemorySearchDialog :=
  {| search_t := T; memory_cells := [] |}.

(** The part of [EmulatorWindow] the memory search uses.  A
    [std::unique_ptr] is [None] when null, [Some d] when it owns [d]. *)
Record EmulatorWindow : Type := mk_window {
  memory_search_dialogs_ : gmap type_index (option MemorySearchDialog)
}.

(** The window as its constructor leaves it: no entry in the table. *)
Definition new_EmulatorWindow : EmulatorWindow :=
  {| memory_search_dialogs_ := ∅ |}.

(** [std::unordered_map::operator[]]: a missing key is inserted with a
    value-initialised (null) pointer. *)
Definition subscript (T : type_index)
    (m : gmap type_index (option MemorySearchDialog))
    : gmap type_index (option MemorySearchDialog) :=
  match m !! T with
  | Some _ => m
  | None => <[T := None]> m
  end.

(** [EmulatorWindow::ToggleMemorySearch<search_t>]. *)
Definition ToggleMemorySearch (T : type_index) (win : EmulatorWindow)
    : EmulatorWindow :=
  if decide (memory_search_dialogs_ win !! T = None) then
    {| memory_search_dialogs_ :=
         <[T := Some (new_MemorySearchDialog T)]>
           (subscript T (memory_search_dialogs_ win)) |}
  else
    {| memory_search_dialogs_ :=
         <[T := None]> (subscript T (memory_search_dialogs_ win)) |}.

(** A sequence of calls, oldest first. *)
Definition toggle_all (calls : list type_index) (win : EmulatorWindow)
    : EmulatorWindow :=
  foldl (λ w T, ToggleMemorySearch T w) win calls.

(** How many of the [calls] are for [T]. *)
Definition calls_for (T : type_index) (calls : list type_index) : nat :=
  length (filter (λ U, U = T) calls).

(** How many of the [calls] constructed a dialog for [T]: a call does when
    it finds no key and leaves an owning pointer. *)
Fixpoint constructions (T : type_index) (calls : list type_index)
    (win : EmulatorWindow) : nat :=
  match calls with
  | [] => 0%nat
  | U :: rest =>
      ((if decide (U = T ∧ memory_search_dialogs_ win !! T = None)
        then 1 else 0)
       + constructions T rest (ToggleMemorySearch U win))%nat
  end.

(** *** The floating-point search *)

(** C++ [x >= y] and [x < y] on [float]: false when either side is a NaN. *)
Definition float_ge (x y : spec_float) : bool :=
  match SFcompare x y with
  | Some Gt | Some Eq => true
  | _ => false
  end.

Definition float_lt (x y : spec_float) : bool :=
  match SFcompare x y with
  | Some Lt => true
  | _ => false
  end.

(** [min_val <= v < max_val], the interval of the claim, with IEEE 754
    comparisons. *)
Definition in_interval (min_val max_val v : spec_float) : bool :=
  SFleb min_val v && SFltb v max_val.

Definition sizeof_float : Z := 4.

Section Search.

(** [xe::load_and_swap<float> (memory->TranslateVirtual (addr))]: the guest
    memory read as big-endian floats; both functions are outside this tree. *)
Variable load : Z → spec_float.

Variables min_val max_val : spec_float.

(** The loop of the "new search" button,
    [for (uint32_t i = 0; i < limit; i += sizeof (search_t))], from the
    state [(i, memory_cells)]. *)
Fixpoint new_search_loop (limit : Z) (fuel : nat) (i : Z) (cells : list Z)
    : list Z :=
  match fuel with
  | O => cells
  | S fuel' =>
      if i <? limit then
        let value := load (uint32_wrap (BASE_ADDRESS + i)) in
        let cells' :=
          if float_ge value min_val && float_lt value max_val
          then cells ++ [uint32_wrap (BASE_ADDRESS + i)]
          else cells in
        new_search_loop limit fuel' (uint32_wrap (i + sizeof_float)) cells'
      else cells
  end.

(** The "new search" button: [memory_cells.clear ()], then the loop.  One
    unit of fuel per byte of the scanned range is more than the loop uses. *)
Definition new_search : list Z :=
  new_search_loop (uint32_wrap (BYTES_PER_CHUNK * 15))
    (Z.to_nat (BYTES_PER_CHUNK * 15)) 0 [].

(** The loop of the "continue" button; the iterator [it] is a position in
    the vector, [end ()] is the first position without an element. *)
Fixpoint continue_loop (fuel : nat) (it : nat) (cells : list Z) : list Z :=
  match fuel with
  | O => cells
  | S fuel' =>
      match cells !! it with
      | None => cells
      | Some cell =>
          let value := load cell in
          if float_ge value min_val && float_lt value max_val
          then continue_loop fuel' (S it) cells
          else continue_loop fuel' it (delete it cells)
      end
  end.

(** The "continue" button: every iteration either advances the iterator or
    erases an element, so the length of the vector is enough fuel. *)
Definition continue_search (cells : list Z) : list Z :=
  continue_loop (length cells) 0 cells.

End Search.

(** What one frame of the float dialog receives from the user interface. *)
Record frame : Type := mk_frame {
  begin_visible : bool;         (* result of ImGui::Begin *)
  dialog_open : bool;           (* false when the close box was hit *)
  frame_min : spec_float;       (* std::stof (min_value) *)
  frame_max : spec_float;       (* std::stof (max_value) *)
  new_search_pressed : bool;
  continue_pressed : bool
}.

(** The float branch of [MemorySearchDialog::OnDraw] on the dialog's own
    state. *)
Definition OnDraw_cells (load : Z → spec_float) (io : frame)
    (cells : list Z) : list Z :=
  let cells1 :=
    if new_search_pressed io
    then new_search load (frame_min io) (frame_max io)
    else cells in
  if continue_pressed io
  then continue_search load (frame_min io) (frame_max io) cells1
  else cells1.

(** [MemorySearchDialog<search_t>::OnDraw] for the dialog registered for [T]
    in the window, around the search proper [body], the part that depends on
    [search_t]: nothing happens when [ImGui::Begin] fails; otherwise the
    buttons act, and a closed dialog toggles itself. *)
Definition OnDraw (body : list Z → list Z) (T : type_index) (io : frame)
    (win : EmulatorWindow) : EmulatorWindow :=
  match memory_search_dialogs_ win !! T with
  | Some (Some d) =>
      if begin_visible io then
        let d' := {| search_t := search_t d;
                     memory_cells := body (memory_cells d) |} in
        let win' := {| memory_search_dialogs_ :=
                         <[T := Some d']> (memory_search_dialogs_ win) |} in
        if dialog_open io then win' else ToggleMemorySearch T win'
      else win
  | _ => win
  end.

(** [MemorySearchDialog<float>::OnDraw]. *)
Definition OnDraw_float (load : Z → spec_float) (io : frame)
    (win : EmulatorWindow) : EmulatorWindow :=
  OnDraw (OnDraw_cells load io) typeid_float io win.

(** *** A concrete memory *)

(** The floats 1, 2 and 3. *)
Definition float_1 : spec_float := S754_finite false 8388608 (-23).
Definition float_2 : spec_float := S754_finite false 8388608 (-22).
Definition float_3 : spec_float := S754_finite false 12582912 (-22).

(** A guest memory that holds 1, 2, 3 and a NaN in its first four cells,
    and zeros elsewhere. *)
Definition example_load (a : Z) : spec_float :=
  if a =? BASE_ADDRESS then float_1
  else if a =? BASE_ADDRESS + 4 then float_2
  else if a =? BASE_ADDRESS + 8 then float_3
  else if a =? BASE_ADDRESS + 12 then S754_nan
  else S754_zero false.

(** *** The integer search *)

(** The instantiations of [MemorySearchDialog] that take the integer
    branch of [OnDraw]. *)
Inductive int_search_t : Type :=
  | search_uint8_t
  | search_uint16_t
  | search_uint32_t.

(** [sizeof (search_t)]. *)
Definition sizeof_search_t (k : int_search_t) : Z :=
  match k with
  | search_uint8_t => 1
  | search_uint16_t => 2
  | search_uint32_t => 4
  end.

(** [static_cast<search_t> (int_val)]: the value modulo 2^(8 * sizeof). *)
Definition cast_search_t (k : int_search_t) (int_val : Z) : Z :=
  int_val mod 2 ^ (8 * sizeof_search_t k).

Section IntSearch.

Variable k : int_search_t.

(** [xe::load_and_swap<search_t> (memory->TranslateVirtual (addr))]: the
    guest memory read as big-endian integers of the search type; both
    functions are outside this tree. *)
Variable load : Z → Z.

Variable real_val : Z.

(** The loop of the "New" button,
    [for (uint32_t i = 0; i < limit; i += sizeof (search_t))]. *)
Fixpoint int_new_loop (limit : Z) (fuel : nat) (i : Z) (cells : list Z)
    : list Z :=
  match fuel with
  | O => cells
  | S fuel' =>
      if i <? limit then
        let value := load (uint32_wrap (BASE_ADDRESS + i)) in
        let cells' :=
          if value =? real_val
          then cells ++ [uint32_wrap (BASE_ADDRESS + i)]
          else cells in
        int_new_loop limit fuel' (uint32_wrap (i + sizeof_search_t k)) cells'
      else cells
  end.

(** The "New" button: [memory_cells.clear ()], then the loop. *)
Definition int_new_search : list Z :=
  int_new_loop (uint32_wrap (BYTES_PER_CHUNK * 15))
    (Z.to_nat (BYTES_PER_CHUNK * 15)) 0 [].

(** The loops of the "==" and "!=" buttons: the same walk with erasure as
    for the float search, one keeping the cells whose value is [real_val],
    the other the cells whose value is not. *)
Fixpoint eq_loop (fuel : nat) (it : nat) (cells : list Z) : list Z :=
  match fuel with
  | O => cells
  | S fuel' =>
      match cells !! it with
      | None => cells
      | Some cell =>
          let value := load cell in
          if value =? real_val
          then eq_loop fuel' (S it) cells
          else eq_loop fuel' it (delete it cells)
      end
  end.

Fixpoint ne_loop (fuel : nat) (it : nat) (cells : list Z) : list Z :=
  match fuel with
  | O => cells
  | S fuel' =>
      match cells !! it with
      | None => cells
      | Some cell =>
          let value := load cell in
          if negb (value =? real_val)
          then ne_loop fuel' (S it) cells
          else ne_loop fuel' it (delete it cells)
      end
  end.

Definition eq_search (cells : list Z) : list Z :=
  eq_loop (length cells) 0 cells.

Definition ne_search (cells : list Z) : list Z :=
  ne_loop (length cells) 0 cells.

End IntSearch.

(** What one frame of an integer dialog receives from the user interface. *)
Record int_frame : Type := mk_int_frame {
  int_val : Z;                  (* std::stoi (value) *)
  new_pressed : bool;
  eq_pressed : bool;
  ne_pressed : bool
}.

(** The integer branch of [MemorySearchDialog::OnDraw] on the dialog's own
    state: the three buttons are tested one after the other. *)
Definition OnDraw_int_cells (k : int_search_t) (load : Z → Z)
    (io : int_frame) (cells : list Z) : list Z :=
  let real_val := cast_search_t k (int_val io) in
  let cells1 :=
    if new_pressed io then int_new_search k load real_val else cells in
  let cells2 :=
    if eq_pressed io then eq_search load real_val cells1 else cells1 in
  if ne_pressed io then ne_search load real_val cells2 else cells2.

(** A guest memory of bytes: 7 in the cells at offsets 0, 3 and 5, and 0
    elsewhere. *)
Definition example_bytes (a : Z) : Z :=
  if a =? BASE_ADDRESS then 7
  else if a =? BASE_ADDRESS + 3 then 7
  else if a =? BASE_ADDRESS + 5 then 7
  else 0.

End App.

(** ** Facts about [ThreadState] *)

Module ThreadStateFacts.

Import Cpu.
Local Open Scope Z_scope.

(** *** Running the monad *)

Lemma bind_Done {A B} (m : M A) (k : A → M B) w a w' :
  m w = Done a w' → (m ≫= k) w = k a w'.
Proof. intros H. unfold mbind, M_bind. by rewrite H. Qed.

Lemma store_block p g b w :
  p ≠ 0 → host_blocks w !! p = Some b →
  store p g w =
  Done tt (set_host (<[p := g b]> (host_blocks w)) (host_script w) w).
Proof.
  intros Hp Hb. unfold store. rewrite Hb.
  destruct (Z.eqb_spec p 0); [contradiction | reflexivity].
Qed.

Lemma store_allocated p g b ss blocks w :
  p ≠ 0 → blocks !! p = Some b →
  store p g (allocated_world ss blocks w) =
  Done tt (allocated_world ss (<[p := g b]> blocks) w).
Proof. intros Hp Hb. by rewrite (store_block p g b). Qed.

Lemma Processor_memory_eval proc w :
  Processor_memory proc w =
  Done TheMemory
    {| mem_refs := S (mem_refs w); mem_base := mem_base w;
       heap_live := heap_live w; heap_script := heap_script w;
       host_blocks := host_blocks w; host_script := host_script w;
       trace := trace w ++ [EvMemoryRetain] |}.
Proof. reflexivity. Qed.

Lemma xe_memory_heap_alloc_eval m b ss f w :
  xe_memory_heap_alloc m b ss f w =
  Done (heap_answer w)
    {| mem_refs := mem_refs w; mem_base := mem_base w;
       heap_live := if heap_answer w =? 0 then heap_live w
                    else <[heap_answer w := ss]> (heap_live w);
       heap_script := tail (heap_script w);
       host_blocks := host_blocks w; host_script := host_script w;
       trace := trace w ++ [EvHeapAlloc b ss f (heap_answer w)] |}.
Proof.
  unfold xe_memory_heap_alloc, heap_answer.
  destruct (heap_script w) as [|a rest] eqn:Hs.
  - destruct w; simpl in *; subst; reflexivity.
  - destruct (a =? 0) eqn:Ea; [apply Z.eqb_eq in Ea; subst a|]; reflexivity.
Qed.

Lemma xe_malloc_aligned_eval sz w :
  xe_malloc_aligned sz w =
  Done (host_answer w)
    {| mem_refs := mem_refs w; mem_base := mem_base w;
       heap_live := heap_live w; heap_script := heap_script w;
       host_blocks := if host_answer w =? 0 then host_blocks w
                      else <[host_answer w := host_stale w]> (host_blocks w);
       host_script := tail (host_script w);
       trace := trace w ++ [EvMallocAligned sz (host_answer w)] |}.
Proof.
  unfold xe_malloc_aligned, host_answer, host_stale.
  destruct (host_script w) as [|[p stale] rest] eqn:Hs.
  - destruct w; simpl in *; subst; reflexivity.
  - destruct (p =? 0) eqn:Ep; [apply Z.eqb_eq in Ep; subst p|]; reflexivity.
Qed.

(** The three calls the constructor starts with, whatever follows. *)
Lemma ctor_allocations {B} (k : xe_memory_ref → Z → Z → M B) proc ss w :
  (memory ← Processor_memory proc;
   stack_address ← xe_memory_heap_alloc memory 0 ss 0;
   ppc_state ← xe_malloc_aligned sizeof_xe_ppc_state_t;
   k memory stack_address ppc_state) w =
  k TheMemory (heap_answer w) (host_answer w)
    (allocated_world ss
       (if host_answer w =? 0 then host_blocks w
        else <[host_answer w := host_stale w]> (host_blocks w)) w).
Proof.
  rewrite (bind_Done _ _ _ _ _ (Processor_memory_eval proc w)).
  rewrite (bind_Done _ _ _ _ _ (xe_memory_heap_alloc_eval _ _ _ _ _)).
  rewrite (bind_Done _ _ _ _ _ (xe_malloc_aligned_eval _ _)).
  unfold heap_answer, host_answer, host_stale, allocated_world.
  cbn [heap_script host_script heap_live host_blocks mem_refs mem_base trace].
  rewrite <- !app_assoc. reflexivity.
Qed.

(** The constructor in closed form: it stops at the first store when the
    host allocator answers null, at the assertion when the answer is not a
    multiple of 16, and completes otherwise; the guest heap's answer is never
    looked at. *)
Lemma ThreadState_ctor_eval this proc ss tsa tid w :
  ThreadState_ctor this proc ss tsa tid w =
  if host_answer w =? 0 then
    Fault NullDereference (allocated_world ss (host_blocks w) w)
  else if Z.land (host_answer w) 15 =? 0 then
    Done (constructed_ThreadState ss tsa tid w)
      (allocated_world ss
         (<[host_answer w := constructed_ppc_state this proc ss tsa w]>
            (host_blocks w)) w)
  else
    Fault AssertionFailure
      (allocated_world ss
         (<[host_answer w := host_stale w]> (host_blocks w)) w).
Proof.
  unfold ThreadState_ctor. rewrite ctor_allocations.
  destruct (Z.eqb_spec (host_answer w) 0) as [Hp|Hp].
  - rewrite Hp. reflexivity.
  - unfold XEASSERT. destruct (Z.land (host_answer w) 15 =? 0); [|reflexivity].
    unfold xe_zero_struct.
    rewrite (bind_Done (mret tt) _ _ tt _ eq_refl).
    erewrite bind_Done
      by (apply store_allocated; [done | apply lookup_insert_eq]).
    rewrite insert_insert_eq.
    erewrite (bind_Done (xe_memory_addr _ _)) by reflexivity.
    do 5 (erewrite bind_Done
            by (apply store_allocated; [done | apply lookup_insert_eq]);
          rewrite insert_insert_eq).
    reflexivity.
Qed.

(** What a completed constructor tells about the world it started in. *)
Lemma ThreadState_ctor_Done this proc ss tsa tid w ctx w' :
  ThreadState_ctor this proc ss tsa tid w = Done ctx w' →
  host_answer w ≠ 0 ∧ Z.land (host_answer w) 15 = 0 ∧
  ctx = constructed_ThreadState ss tsa tid w ∧
  w' = allocated_world ss
         (<[host_answer w := constructed_ppc_state this proc ss tsa w]>
            (host_blocks w)) w.
Proof.
  rewrite ThreadState_ctor_eval.
  destruct (Z.eqb_spec (host_answer w) 0) as [Hp|Hp]; [discriminate|].
  destruct (Z.eqb_spec (Z.land (host_answer w) 15) 0) as [Hl|Hl];
    [|discriminate].
  intros [= <- <-]. done.
Qed.

Lemma ThreadState_dtor_eval this w :
  ThreadState_dtor this w =
  Done tt
    {| mem_refs := Nat.pred (mem_refs w); mem_base := mem_base w;
       heap_live := delete (stack_address_ this) (heap_live w);
       heap_script := heap_script w;
       host_blocks := delete (ppc_state_ this) (host_blocks w);
       host_script := host_script w;
       trace := trace w ++ [EvFreeAligned (ppc_state_ this);
                            EvHeapFree (stack_address_ this) 0;
                            EvMemoryRelease] |}.
Proof.
  unfold ThreadState_dtor, xe_free_aligned, xe_memory_heap_free,
    xe_memory_release, mbind, M_bind, log, set_host, set_heap, set_mem_refs.
  cbn [heap_script host_script heap_live host_blocks mem_refs mem_base trace].
  rewrite <- !app_assoc. reflexivity.
Qed.

Lemma land_15_mod_16 p : Z.land p 15 = p mod 16.
Proof. exact (Z.land_ones p 4 ltac:(lia)). Qed.

Lemma new_events_app w w' l : trace w' = trace w ++ l → new_events w w' = l.
Proof. intros H. unfold new_events. rewrite H. apply drop_app_length. Qed.

(** The events of a run of the constructor, completed or not. *)
Lemma ThreadState_ctor_events this proc ss tsa tid w :
  new_events w (final_world (ThreadState_ctor this proc ss tsa tid w)) =
  [EvMemoryRetain;
   EvHeapAlloc 0 ss 0 (heap_answer w);
   EvMallocAligned sizeof_xe_ppc_state_t (host_answer w)].
Proof.
  apply new_events_app. rewrite ThreadState_ctor_eval.
  destruct (host_answer w =? 0); [reflexivity|].
  destruct (Z.land (host_answer w) 15 =? 0); reflexivity.
Qed.


(** Replace the context and the world of a completed constructor by their
    closed forms. *)
Ltac ctor_inv H :=
  destruct (ThreadState_ctor_Done _ _ _ _ _ _ _ _ H) as (_ & _ & -> & ->).

(** A constructor completes when the host allocator answers with a
    non-null multiple of 16. *)
Lemma ThreadState_ctor_completes this proc ss tsa tid w :
  host_answer w ≠ 0 → host_answer w mod 16 = 0 →
  ∃ ctx w', ThreadState_ctor this proc ss tsa tid w = Done ctx w'.
Proof.
  intros Hp Hal. rewrite ThreadState_ctor_eval.
  destruct (Z.eqb_spec (host_answer w) 0) as [|_]; [contradiction|].
  rewrite land_15_mod_16, Hal. by eexists _, _.
Qed.

(** *** The scenario of the specification, run *)

Example scenario_registers :
  let o := ThreadState_ctor 0x9000 0x8000 65536 0x7FE00000 1 scenario_world in
  gpr (final_world o) 0x5000 1 = Some 0x70010000 ∧
  gpr (final_world o) 0x5000 13 = Some 0x7FE00000 ∧
  gpr (final_world o) 0x5000 2 = Some 0 ∧
  0x5000 mod 16 = 0.
Proof. vm_compute. done. Qed.

Example scenario_null_host_block :
  ∃ w', ThreadState_ctor 0x9000 0x8000 65536 0x7FE00000 1
          (set_host ∅ [] scenario_world) = Fault NullDereference w'.
Proof. by eexists. Qed.

Example scenario_misaligned_host_block :
  ∃ w', ThreadState_ctor 0x9000 0x8000 65536 0x7FE00000 1
          (set_host ∅ [(0x5008, stale_ppc_state)] scenario_world) =
        Fault AssertionFailure w'.
Proof. by eexists. Qed.

(** *** The stack pointer *)

(** C1, as the code has it: after a successful Create the stack-pointer
    register r[1] holds [stack_base + stack_size] computed in 32-bit unsigned
    arithmetic, which is the exact sum whenever the sum is below 2^32;
    [stack_base] is the address the guest heap answered with. *)
Theorem create_stack_pointer this proc ss tsa tid w ctx w' :
  0 < ss < 2 ^ 32 →
  0 ≤ heap_answer w < 2 ^ 32 →
  ThreadState_ctor this proc ss tsa tid w = Done ctx w' →
  stack_address_ ctx = heap_answer w ∧
  gpr w' (ppc_state_ ctx) 1 = Some ((heap_answer w + ss) mod 2 ^ 32) ∧
  (heap_answer w + ss < 2 ^ 32 →
   gpr w' (ppc_state_ ctx) 1 = Some (heap_answer w + ss)).
Proof.
  intros Hss Ha H.
  ctor_inv H.
  assert (Hr : gpr
            (allocated_world ss
               (<[host_answer w := constructed_ppc_state this proc ss tsa w]>
                  (host_blocks w)) w)
            (ppc_state_ (constructed_ThreadState ss tsa tid w)) 1 =
          Some ((heap_answer w + ss) mod 2 ^ 32)).
  { unfold gpr. cbn [allocated_world host_blocks constructed_ThreadState
                     ppc_state_].
    rewrite lookup_insert_eq. reflexivity. }
  split; [reflexivity|]. split; [exact Hr|].
  intros Hlt. rewrite Hr. f_equal. apply Z.mod_small. lia.
Qed.

(** The scenario of the specification: 0x70000000 + 65536 = 0x70010000. *)
Lemma create_stack_pointer_witness :
  0 < 65536 < 2 ^ 32 ∧
  0 ≤ heap_answer scenario_world < 2 ^ 32 ∧
  ThreadState_ctor 0x9000 0x8000 65536 0x7FE00000 1 scenario_world =
    Done scenario_context scenario_constructed ∧
  gpr scenario_constructed 0x5000 1 = Some 0x70010000.
Proof.
  assert (Hss : 0 < 65536 < 2 ^ 32) by (split; reflexivity).
  assert (Ha : 0 ≤ heap_answer scenario_world < 2 ^ 32)
    by (split; [discriminate | reflexivity]).
  assert (Hdone :
    ThreadState_ctor 0x9000 0x8000 65536 0x7FE00000 1 scenario_world =
      Done scenario_context scenario_constructed) by reflexivity.
  split; [exact Hss|]. split; [exact Ha|]. split; [exact Hdone|].
  refine (proj2 (proj2 (create_stack_pointer 0x9000 0x8000 65536 0x7FE00000 1
            scenario_world scenario_context scenario_constructed
            Hss Ha Hdone)) _).
  reflexivity.
Defined.

(** C1 as stated fails where the sum leaves the 32-bit range: for a stack
    that ends at the top of the guest address space r[1] is 0, not 2^32. *)
Lemma create_stack_pointer_wraps :
  ¬ stack_pointer_is_exact_sum 0x9000 0x8000 0x10000 0x7FE00000 1
      top_of_memory_world.
Proof.
  intros H.
  destruct (ThreadState_ctor_completes 0x9000 0x8000 0x10000 0x7FE00000 1
              top_of_memory_world) as (ctx & w' & Hdone);
    [discriminate | reflexivity |].
  specialize (H eq_refl ctx w' Hdone). ctor_inv Hdone.
  vm_compute in H. discriminate H.
Qed.

(** *** Allocation failures *)

(** C2, as the code has it: Create has no failure path.  When the guest
    heap fails (answers the null address) and the host allocator answers
    with a fresh aligned block, Create still returns a context, with
    [stack_base] 0; the register file block stays allocated, so the host
    allocator has one more outstanding block than before the call, and the
    guest heap as many as before. *)
Theorem create_ignores_heap_failure this proc ss tsa tid w :
  heap_answer w = 0 →
  host_answer w ≠ 0 →
  host_answer w mod 16 = 0 →
  host_blocks w !! host_answer w = None →
  ∃ ctx w',
    ThreadState_ctor this proc ss tsa tid w = Done ctx w' ∧
    stack_address_ ctx = 0 ∧
    is_Some (host_blocks w' !! ppc_state_ ctx) ∧
    host_outstanding w' = S (host_outstanding w) ∧
    heap_outstanding w' = heap_outstanding w.
Proof.
  intros Ha Hp Hal Hfresh.
  exists (constructed_ThreadState ss tsa tid w).
  eexists. split.
  - rewrite ThreadState_ctor_eval.
    destruct (Z.eqb_spec (host_answer w) 0) as [|_]; [contradiction|].
    rewrite land_15_mod_16, Hal. reflexivity.
  - unfold host_outstanding, heap_outstanding.
    cbn [allocated_world host_blocks heap_live constructed_ThreadState
         stack_address_ ppc_state_].
    rewrite Ha, lookup_insert_eq. cbn [Z.eqb].
    split; [reflexivity|]. split; [by eexists|].
    split; [|reflexivity].
    by apply map_size_insert_None.
Qed.

(** The guest heap is exhausted and the host allocator answers 0x5000. *)
Lemma create_ignores_heap_failure_witness :
  heap_answer heap_exhausted_world = 0 ∧
  host_answer heap_exhausted_world = 0x5000 ∧
  ∃ ctx w',
    ThreadState_ctor 0x9000 0x8000 65536 0x7FE00000 1 heap_exhausted_world =
      Done ctx w' ∧
    stack_address_ ctx = 0 ∧
    is_Some (host_blocks w' !! ppc_state_ ctx) ∧
    host_outstanding w' = S (host_outstanding heap_exhausted_world) ∧
    heap_outstanding w' = heap_outstanding heap_exhausted_world.
Proof.
  split; [reflexivity|]. split; [reflexivity|].
  apply (create_ignores_heap_failure 0x9000 0x8000 65536 0x7FE00000 1
           heap_exhausted_world).
  - reflexivity.
  - discriminate.
  - reflexivity.
  - reflexivity.
Defined.

(** C2 as stated fails: with the guest heap exhausted Create returns a
    context and leaves the register file block allocated. *)
Lemma create_leaks_on_heap_failure :
  ¬ failed_create_is_clean 0x9000 0x8000 65536 0x7FE00000 1
      heap_exhausted_world.
Proof.
  intros H. destruct (H (or_introl eq_refl)) as [Hno _].
  destruct (ThreadState_ctor_completes 0x9000 0x8000 65536 0x7FE00000 1
              heap_exhausted_world) as (ctx & w' & Hdone);
    [discriminate | reflexivity |].
  exact (Hno ctx w' Hdone).
Qed.

(** *** The order of the allocations *)

(** C3, as the code has it: in every run of Create the collaborators are
    called in this order: the memory reference is taken, [stack_size] bytes
    are requested from the guest heap, and only afterwards the register file
    block is requested from the host allocator. *)
Theorem create_allocation_order this proc ss tsa tid w :
  let o := ThreadState_ctor this proc ss tsa tid w in
  new_events w (final_world o) =
    [EvMemoryRetain;
     EvHeapAlloc 0 ss 0 (heap_answer w);
     EvMallocAligned sizeof_xe_ppc_state_t (host_answer w)] ∧
  happens_before is_heap_alloc is_malloc_aligned
    (new_events w (final_world o)) = true ∧
  happens_before is_malloc_aligned is_heap_alloc
    (new_events w (final_world o)) = false.
Proof.
  intros o. subst o. rewrite ThreadState_ctor_events.
  repeat split.
Qed.

(** C3 as stated fails: in the scenario of the specification the guest
    stack is requested first. *)
Lemma create_allocates_stack_first :
  ¬ register_file_allocated_first 0x9000 0x8000 65536 0x7FE00000 1
      scenario_world.
Proof.
  unfold register_file_allocated_first.
  cbv zeta. rewrite ThreadState_ctor_events.
  discriminate.
Qed.

(** *** Alignment of the register file *)

(** C4: with a host allocator that answers with multiples of 16, the
    alignment assertion of the constructor never fails, and the register
    file block of every constructed context is a live block whose address is
    a multiple of 16. *)
Theorem register_file_aligned this proc ss tsa tid w :
  host_allocator_aligned w →
  (∀ w', ThreadState_ctor this proc ss tsa tid w ≠ Fault AssertionFailure w') ∧
  (∀ ctx w',
     ThreadState_ctor this proc ss tsa tid w = Done ctx w' →
     ppc_state_ ctx = host_answer w ∧
     ppc_state_ ctx mod 16 = 0 ∧
     is_Some (host_blocks w' !! ppc_state_ ctx)).
Proof.
  intros Hal.
  assert (Hp : host_answer w mod 16 = 0).
  { unfold host_allocator_aligned, host_answer in *.
    destruct (host_script w) as [|[p stale] rest]; [reflexivity|].
    by inversion Hal. }
  split.
  - intros w'. rewrite ThreadState_ctor_eval.
    destruct (host_answer w =? 0); [discriminate|].
    rewrite land_15_mod_16, Hp. discriminate.
  - intros ctx w' H.
    ctor_inv H.
    cbn [constructed_ThreadState ppc_state_ allocated_world host_blocks].
    rewrite lookup_insert_eq. split; [reflexivity|]. split; [exact Hp|].
    by eexists.
Qed.

(** The scenario of the specification: the block is at 0x5000. *)
Lemma register_file_aligned_witness :
  host_allocator_aligned scenario_world ∧
  ppc_state_ scenario_context = 0x5000 ∧
  ppc_state_ scenario_context mod 16 = 0.
Proof.
  assert (Hal : host_allocator_aligned scenario_world).
  { constructor; [reflexivity | constructor]. }
  split; [exact Hal|]. split; [reflexivity|].
  refine (proj1 (proj2 (proj2 (register_file_aligned 0x9000 0x8000 65536
            0x7FE00000 1 scenario_world Hal)
            scenario_context scenario_constructed _))).
  reflexivity.
Defined.

(** *** The thread-environment register *)

(** C5: after a successful Create r[13] holds [thread_state_address] as it
    was passed, and Teardown writes to no register file: it completes, and
    the host memory it leaves is the one it found without the block of the
    context. *)
Theorem thread_environment_register this proc ss tsa tid w ctx w' :
  ThreadState_ctor this proc ss tsa tid w = Done ctx w' →
  gpr w' (ppc_state_ ctx) 13 = Some tsa ∧
  thread_state_address_ ctx = tsa ∧
  ∃ w'', ThreadState_dtor ctx w' = Done tt w'' ∧
         host_blocks w'' = delete (ppc_state_ ctx) (host_blocks w').
Proof.
  intros H.
  ctor_inv H.
  split; [|split; [reflexivity|]].
  - unfold gpr.
    cbn [allocated_world host_blocks constructed_ThreadState ppc_state_].
    rewrite lookup_insert_eq. reflexivity.
  - eexists. split; [apply ThreadState_dtor_eval | reflexivity].
Qed.

(** The scenario of the specification: r[13] is 0x7FE00000. *)
Lemma thread_environment_register_witness :
  ThreadState_ctor 0x9000 0x8000 65536 0x7FE00000 1 scenario_world =
    Done scenario_context scenario_constructed ∧
  gpr scenario_constructed 0x5000 13 = Some 0x7FE00000.
Proof.
  assert (Hdone :
    ThreadState_ctor 0x9000 0x8000 65536 0x7FE00000 1 scenario_world =
      Done scenario_context scenario_constructed) by reflexivity.
  split; [exact Hdone|].
  exact (proj1 (thread_environment_register 0x9000 0x8000 65536 0x7FE00000 1
                  scenario_world scenario_context scenario_constructed
                  Hdone)).
Defined.

(** *** Zero initialisation *)

(** C6: after a successful Create, whatever the block held when it was
    handed out, the cross-links are wired ([membase] is the translation
    base, [processor] the processor, [thread_state] the new context) and
    every other field of the register file except r[1] and r[13] is zero. *)
Theorem register_file_zeroed this proc ss tsa tid w ctx w' :
  ThreadState_ctor this proc ss tsa tid w = Done ctx w' →
  ∃ b, host_blocks w' !! ppc_state_ ctx = Some b ∧
       membase b = mem_base w + 0 ∧ processor b = proc ∧
       thread_state b = this ∧
       cr b = 0 ∧ xer b = 0 ∧ fpscr b = 0 ∧
       fpr b = replicate 32 0 ∧ vr b = replicate 128 0 ∧
       length (r b) = 32%nat ∧
       ∀ i, (i < 32)%nat → i ≠ 1%nat → i ≠ 13%nat → r b !! i = Some 0.
Proof.
  intros H.
  ctor_inv H.
  exists (constructed_ppc_state this proc ss tsa w).
  cbn [allocated_world host_blocks constructed_ThreadState ppc_state_].
  rewrite lookup_insert_eq.
  repeat (split; [reflexivity|]).
  intros i Hi H1 H13.
  unfold constructed_ppc_state. cbn [set_r r set_thread_state set_processor
                                     set_membase zero_ppc_state].
  rewrite !list_lookup_insert_ne by done.
  apply lookup_replicate_2. exact Hi.
Qed.

(** The scenario of the specification, with a block that held stale
    values: the condition field and r[5] are zero afterwards. *)
Lemma register_file_zeroed_witness :
  cr (host_stale scenario_world) = 5 ∧
  ∃ b, host_blocks scenario_constructed !! 0x5000 = Some b ∧
       cr b = 0 ∧ r b !! 5%nat = Some 0.
Proof.
  split; [reflexivity|].
  destruct (register_file_zeroed 0x9000 0x8000 65536 0x7FE00000 1
              scenario_world scenario_context scenario_constructed eq_refl)
    as (b & Hb & _ & _ & _ & Hcr & _ & _ & _ & _ & _ & Hr).
  exists b. split; [exact Hb|]. split; [exact Hcr|].
  apply Hr; [repeat constructor | discriminate | discriminate].
Defined.

(** *** Teardown *)

(** C9: the destructor completes in every world, and calls its
    collaborators in this order: the register file block is freed with the
    aligned host free, then the guest stack is given back to the heap, and
    last the reference to the memory object is released. *)
Theorem teardown_order this w :
  ∃ w', ThreadState_dtor this w = Done tt w' ∧
        new_events w w' =
          [EvFreeAligned (ppc_state_ this);
           EvHeapFree (stack_address_ this) 0;
           EvMemoryRelease].
Proof.
  eexists. split; [apply ThreadState_dtor_eval|].
  by apply new_events_app.
Qed.

(** C7: when the allocators answered with addresses that were not
    outstanding, Teardown of the constructed context completes, the register
    file block and the guest stack it held are no longer allocated, the
    memory reference is dropped, and both allocators and the reference count
    are exactly as they were before Create. *)
Theorem teardown_returns_to_baseline this proc ss tsa tid w ctx w1 :
  allocators_answer_fresh w →
  ThreadState_ctor this proc ss tsa tid w = Done ctx w1 →
  is_Some (host_blocks w1 !! ppc_state_ ctx) ∧
  (stack_address_ ctx ≠ 0 → heap_live w1 !! stack_address_ ctx = Some ss) ∧
  ∃ w2, ThreadState_dtor ctx w1 = Done tt w2 ∧
        host_blocks w2 !! ppc_state_ ctx = None ∧
        heap_live w2 !! stack_address_ ctx = None ∧
        host_blocks w2 = host_blocks w ∧
        heap_live w2 = heap_live w ∧
        mem_refs w2 = mem_refs w ∧
        host_outstanding w2 = host_outstanding w ∧
        heap_outstanding w2 = heap_outstanding w ∧
        last (trace w2) = Some EvMemoryRelease.
Proof.
  intros [Hheap Hhost] H.
  ctor_inv H.
  cbn [allocated_world host_blocks heap_live constructed_ThreadState
       ppc_state_ stack_address_].
  split; [rewrite lookup_insert_eq; by eexists|].
  split.
  { intros Ha. destruct (Z.eqb_spec (heap_answer w) 0); [contradiction|].
    apply lookup_insert_eq. }
  eexists. split; [apply ThreadState_dtor_eval|].
  unfold host_outstanding, heap_outstanding.
  cbn [allocated_world host_blocks heap_live mem_refs trace
       constructed_ThreadState ppc_state_ stack_address_ Nat.pred].
  assert (Hb : delete (host_answer w)
                 (<[host_answer w := constructed_ppc_state this proc ss tsa w]>
                    (host_blocks w)) = host_blocks w)
    by (rewrite delete_insert_eq; by apply delete_id).
  assert (Hl : delete (heap_answer w)
                 (if heap_answer w =? 0 then heap_live w
                  else <[heap_answer w := ss]> (heap_live w)) = heap_live w).
  { destruct (heap_answer w =? 0).
    - by apply delete_id.
    - rewrite delete_insert_eq. by apply delete_id. }
  rewrite Hb, Hl.
  repeat (split; [done|]).
  by rewrite last_app_cons.
Qed.

(** The scenario of the specification: Create, then Teardown. *)
Lemma teardown_returns_to_baseline_witness :
  allocators_answer_fresh scenario_world ∧
  host_outstanding scenario_constructed = 1%nat ∧
  heap_outstanding scenario_constructed = 1%nat ∧
  ∃ w2,
    ThreadState_dtor scenario_context scenario_constructed = Done tt w2 ∧
    host_outstanding w2 = 0%nat ∧
    heap_outstanding w2 = 0%nat.
Proof.
  assert (Hfresh : allocators_answer_fresh scenario_world)
    by (split; reflexivity).
  split; [exact Hfresh|]. split; [reflexivity|]. split; [reflexivity|].
  destruct (teardown_returns_to_baseline 0x9000 0x8000 65536 0x7FE00000 1
              scenario_world scenario_context scenario_constructed
              Hfresh eq_refl)
    as (_ & _ & w2 & Hd & _ & _ & _ & _ & _ & Hhost & Hheap & _).
  exists w2. split; [exact Hd|]. split; [exact Hhost | exact Hheap].
Defined.

End ThreadStateFacts.

(** ** Facts about the memory-search dialogs *)

Module MemorySearchFacts.

Import App.
Local Open Scope Z_scope.

(** *** The dialog table *)

Lemma toggle_lookup_absent T win :
  memory_search_dialogs_ win !! T = None →
  memory_search_dialogs_ (ToggleMemorySearch T win) !! T =
  Some (Some (new_MemorySearchDialog T)).
Proof.
  intros H. unfold ToggleMemorySearch.
  destruct (decide _) as [_|Hn]; [|contradiction].
  apply lookup_insert_eq.
Qed.

Lemma toggle_lookup_present T win :
  is_Some (memory_search_dialogs_ win !! T) →
  memory_search_dialogs_ (ToggleMemorySearch T win) !! T = Some None.
Proof.
  intros [d H]. unfold ToggleMemorySearch.
  destruct (decide _) as [Hn|_]; [congruence|].
  apply lookup_insert_eq.
Qed.

Lemma toggle_lookup_other T U win :
  U ≠ T →
  memory_search_dialogs_ (ToggleMemorySearch U win) !! T =
  memory_search_dialogs_ win !! T.
Proof.
  intros Hne. unfold ToggleMemorySearch, subscript.
  destruct (decide _) as [Hn|Hn]; cbn [memory_search_dialogs_].
  - rewrite Hn. by rewrite !lookup_insert_ne.
  - destruct (memory_search_dialogs_ win !! U); [|done].
    by rewrite lookup_insert_ne.
Qed.

Lemma toggle_keeps_key T U win :
  is_Some (memory_search_dialogs_ win !! T) →
  is_Some (memory_search_dialogs_ (ToggleMemorySearch U win) !! T).
Proof.
  intros H. destruct (decide (U = T)) as [->|Hne].
  - rewrite toggle_lookup_present by done. by eexists.
  - by rewrite toggle_lookup_other.
Qed.

Lemma calls_for_cons T U calls :
  calls_for T (U :: calls) =
  if decide (U = T) then S (calls_for T calls) else calls_for T calls.
Proof.
  unfold calls_for. rewrite filter_cons. by destruct (decide (U = T)).
Qed.

(** The entry of [T] after a sequence of calls, from any window. *)
Lemma toggle_all_lookup T calls : ∀ win,
  memory_search_dialogs_ (toggle_all calls win) !! T =
  match calls_for T calls, memory_search_dialogs_ win !! T with
  | O, o => o
  | 1%nat, None => Some (Some (new_MemorySearchDialog T))
  | _, _ => Some None
  end.
Proof.
  induction calls as [|U calls IH]; intros win; [reflexivity|].
  change (toggle_all (U :: calls) win)
    with (toggle_all calls (ToggleMemorySearch U win)).
  rewrite IH, calls_for_cons. destruct (decide (U = T)) as [->|Hne].
  - destruct (memory_search_dialogs_ win !! T) as [d|] eqn:Hw.
    + rewrite toggle_lookup_present by (rewrite Hw; by eexists).
      by destruct (calls_for T calls) as [|[|n]].
    + rewrite toggle_lookup_absent by done.
      by destruct (calls_for T calls) as [|[|n]].
  - by rewrite toggle_lookup_other.
Qed.

Lemma constructions_bound T calls : ∀ win,
  (constructions T calls win ≤
   match memory_search_dialogs_ win !! T with Some _ => 0 | None => 1 end)%nat.
Proof.
  induction calls as [|U calls IH]; intros win.
  - cbn. destruct (_ !! _); lia.
  - cbn [constructions]. specialize (IH (ToggleMemorySearch U win)).
    destruct (decide (U = T ∧ memory_search_dialogs_ win !! T = None))
      as [[-> Hw]|Hn].
    + rewrite toggle_lookup_absent in IH by done. rewrite Hw. lia.
    + destruct (decide (U = T)) as [->|Hne].
      * destruct (memory_search_dialogs_ win !! T) as [d|] eqn:Hw;
          [|by destruct Hn].
        rewrite toggle_lookup_present in IH by (rewrite Hw; by eexists). lia.
      * rewrite toggle_lookup_other in IH by done. lia.
Qed.

(** A frame of the float dialog that stays open: the buttons act on the
    cells of the dialog registered for [float]. *)
Lemma OnDraw_float_open load io win d :
  memory_search_dialogs_ win !! typeid_float = Some (Some d) →
  begin_visible io = true → dialog_open io = true →
  memory_search_dialogs_ (OnDraw_float load io win) !! typeid_float =
  Some (Some {| search_t := search_t d;
                memory_cells := OnDraw_cells load io (memory_cells d) |}).
Proof.
  intros Hd Hvis Hopen. unfold OnDraw_float, OnDraw.
  rewrite Hd, Hvis, Hopen. apply lookup_insert_eq.
Qed.

Example toggle_float_three_times :
  memory_search_dialogs_
    (toggle_all [typeid_float; typeid_uint8_t; typeid_float; typeid_float]
       new_EmulatorWindow) !! typeid_float = Some None ∧
  memory_search_dialogs_
    (toggle_all [typeid_float; typeid_uint8_t; typeid_float; typeid_float]
       new_EmulatorWindow) !! typeid_uint8_t =
    Some (Some (new_MemorySearchDialog typeid_uint8_t)) ∧
  constructions typeid_float
    [typeid_float; typeid_uint8_t; typeid_float; typeid_float]
    new_EmulatorWindow = 1%nat.
Proof. vm_compute. done. Qed.

(** C8: the first call for [T] inserts the key with a new dialog; a call
    that finds the key leaves it mapped to the null pointer; no call, for
    any type, removes a key.  So after any sequence of calls on a new window
    the entry of [T] is absent before its first call, the new dialog after
    its first, and null after its second and all later ones, and at most one
    dialog for [T] has been constructed.  Closing the dialog in [OnDraw] is
    such a second call: it leaves the key mapped to null. *)
Theorem toggle_memory_search_once (T : type_index) :
  (∀ win, memory_search_dialogs_ win !! T = None →
          memory_search_dialogs_ (ToggleMemorySearch T win) !! T =
          Some (Some (new_MemorySearchDialog T))) ∧
  (∀ win, is_Some (memory_search_dialogs_ win !! T) →
          memory_search_dialogs_ (ToggleMemorySearch T win) !! T = Some None) ∧
  (∀ U win, is_Some (memory_search_dialogs_ win !! T) →
            is_Some (memory_search_dialogs_ (ToggleMemorySearch U win) !! T)) ∧
  (∀ calls,
     memory_search_dialogs_ (toggle_all calls new_EmulatorWindow) !! T =
     match calls_for T calls with
     | O => None
     | 1%nat => Some (Some (new_MemorySearchDialog T))
     | _ => Some None
     end) ∧
  (∀ calls, (constructions T calls new_EmulatorWindow ≤ 1)%nat) ∧
  (∀ body io win d,
     memory_search_dialogs_ win !! T = Some (Some d) →
     begin_visible io = true → dialog_open io = false →
     memory_search_dialogs_ (OnDraw body T io win) !! T = Some None).
Proof.
  split; [apply toggle_lookup_absent|].
  split; [apply toggle_lookup_present|].
  split; [intros U win; apply toggle_keeps_key|].
  split; [|split].
  - intros calls. rewrite toggle_all_lookup.
    change (memory_search_dialogs_ new_EmulatorWindow !! T)
      with ((∅ : gmap type_index (option MemorySearchDialog)) !! T).
    rewrite lookup_empty. by destruct (calls_for T calls) as [|[|n]].
  - intros calls.
    pose proof (constructions_bound T calls new_EmulatorWindow) as H.
    change (memory_search_dialogs_ new_EmulatorWindow !! T)
      with ((∅ : gmap type_index (option MemorySearchDialog)) !! T) in H.
    by rewrite lookup_empty in H.
  - intros body io win d Hd Hvis Hclosed. unfold OnDraw.
    rewrite Hd, Hvis, Hclosed. apply toggle_lookup_present.
    cbn [memory_search_dialogs_]. rewrite lookup_insert_eq. by eexists.
Qed.

(** *** Comparisons of floats *)

Lemma SFcompare_antisym x y :
  SFcompare y x = CompOpp <$> SFcompare x y.
Proof.
  destruct x as [sx|sx| |sx mx ex], y as [sy|sy| |sy my ey];
    try (destruct sx; reflexivity); try (destruct sy; reflexivity);
    try (destruct sx, sy; reflexivity); try reflexivity.
  unfold SFcompare. cbn [fmap option_fmap option_map].
  rewrite (Z.compare_antisym ex ey).
  change (Pos.compare_cont Eq my mx) with (my ?= mx)%positive.
  change (Pos.compare_cont Eq mx my) with (mx ?= my)%positive.
  rewrite (Pos.compare_antisym mx my).
  destruct sx, sy; simpl; try reflexivity;
    destruct (ex ?= ey)%Z; simpl; try reflexivity;
    destruct (mx ?= my)%positive; reflexivity.
Qed.

Lemma SFcompare_refl x : SFcompare x x = Some Eq ∨ SFcompare x x = None.
Proof.
  destruct x as [s|s| |s m e]; try (destruct s; auto; fail); auto.
  left. unfold SFcompare. rewrite Z.compare_refl.
  change (Pos.compare_cont Eq m m) with (m ?= m)%positive.
  rewrite Pos.compare_refl. by destruct s.
Qed.

(** C++ [v >= min_val] is [min_val <= v]. *)
Lemma float_ge_SFleb v min_val : float_ge v min_val = SFleb min_val v.
Proof.
  unfold float_ge, SFleb. rewrite (SFcompare_antisym v min_val).
  by destruct (SFcompare v min_val) as [[]|].
Qed.

Lemma float_lt_SFltb v max_val : float_lt v max_val = SFltb v max_val.
Proof. reflexivity. Qed.

(** The test of both loops is the interval of the claim. *)
Lemma loop_test_in_interval min_val max_val v :
  float_ge v min_val && float_lt v max_val = in_interval min_val max_val v.
Proof. unfold in_interval. by rewrite float_ge_SFleb, float_lt_SFltb. Qed.

Lemma SFltb_irrefl x : SFltb x x = false.
Proof. unfold SFltb. by destruct (SFcompare_refl x) as [-> | ->]. Qed.

(** *** The two loops *)

Lemma uint32_wrap_small z : 0 ≤ z < 2 ^ 32 → uint32_wrap z = z.
Proof. apply Z.mod_small. Qed.

(** The scan loop with [n] iterations left and at least as much fuel:
    it appends, in order, the scanned addresses whose value is in the
    interval. *)
Lemma new_search_loop_spec load min_val max_val limit :
  limit ≤ 2 ^ 32 - BASE_ADDRESS →
  ∀ (n fuel : nat) i cells,
    (n ≤ fuel)%nat → 0 ≤ i → limit ≤ i + 4 * Z.of_nat n →
    (∀ k : nat, (k < n)%nat → i + 4 * Z.of_nat k < limit) →
    new_search_loop load min_val max_val limit fuel i cells =
    cells ++ filter (λ a, in_interval min_val max_val (load a) = true)
               ((λ k : nat, BASE_ADDRESS + (i + 4 * Z.of_nat k)) <$> seq 0 n).
Proof.
  intros Hlimit. unfold BASE_ADDRESS in Hlimit.
  induction n as [|n IH]; intros fuel i cells Hfuel Hi Hend Hin.
  - cbn [seq fmap list_fmap]. rewrite filter_nil, app_nil_r.
    destruct fuel as [|fuel]; [reflexivity|]. cbn [new_search_loop].
    destruct (Z.ltb_spec i limit); [lia | reflexivity].
  - destruct fuel as [|fuel]; [lia|].
    pose proof (Hin 0%nat ltac:(lia)) as H0.
    cbn [new_search_loop]. destruct (Z.ltb_spec i limit); [|lia].
    rewrite loop_test_in_interval.
    rewrite (uint32_wrap_small (BASE_ADDRESS + i))
      by (unfold BASE_ADDRESS; lia).
    rewrite (uint32_wrap_small (i + sizeof_float))
      by (unfold sizeof_float; lia).
    rewrite (IH fuel (i + sizeof_float)); unfold sizeof_float; try lia.
    2:{ intros k Hk. pose proof (Hin (S k) ltac:(lia)). lia. }
    cbn [seq]. rewrite <- fmap_S_seq, fmap_cons, <- list_fmap_compose.
    rewrite filter_cons.
    replace (BASE_ADDRESS + (i + 4 * Z.of_nat 0)) with (BASE_ADDRESS + i)
      by lia.
    assert (Hext :
      (λ k : nat, BASE_ADDRESS + (i + 4 + 4 * Z.of_nat k)) <$> seq 0 n =
      ((λ k : nat, BASE_ADDRESS + (i + 4 * Z.of_nat k)) ∘ S) <$> seq 0 n).
    { apply list_fmap_ext. intros _ k _. cbn. lia. }
    rewrite Hext.
    destruct (in_interval min_val max_val (load (BASE_ADDRESS + i))).
    + destruct (decide (true = true)) as [_|Hn]; [|contradiction].
      by rewrite <- app_assoc.
    + destruct (decide (false = true)) as [Hn|_]; [discriminate|].
      reflexivity.
Qed.

(** The filter loop with the iterator at [it]: the elements before the
    iterator stay, and those from it on stay when in the interval. *)
Lemma continue_loop_spec load min_val max_val :
  ∀ (fuel it : nat) (cells : list Z),
    (length cells - it ≤ fuel)%nat →
    continue_loop load min_val max_val fuel it cells =
    take it cells ++
    filter (λ a, in_interval min_val max_val (load a) = true) (drop it cells).
Proof.
  induction fuel as [|fuel IH]; intros it cells Hfuel.
  - rewrite drop_ge, take_ge by lia. by rewrite filter_nil, app_nil_r.
  - cbn [continue_loop]. destruct (cells !! it) as [cell|] eqn:Hc.
    + pose proof (lookup_lt_Some _ _ _ Hc) as Hlt.
      rewrite loop_test_in_interval.
      rewrite (drop_S _ _ _ Hc), filter_cons.
      destruct (in_interval min_val max_val (load cell)).
      * destruct (decide (true = true)) as [_|Hn]; [|contradiction].
        rewrite IH by lia. rewrite (take_S_r _ _ _ Hc).
        by rewrite <- app_assoc.
      * destruct (decide (false = true)) as [Hn|_]; [discriminate|].
        rewrite IH by (rewrite length_delete by (by eexists); lia).
        rewrite delete_take_drop.
        rewrite take_app_length' by (rewrite length_take; lia).
        rewrite drop_app_length' by (rewrite length_take; lia).
        reflexivity.
    + apply lookup_ge_None in Hc.
      rewrite drop_ge, take_ge by lia. by rewrite filter_nil, app_nil_r.
Qed.

Lemma new_search_filter load min_val max_val :
  new_search load min_val max_val =
  filter (λ a, in_interval min_val max_val (load a) = true)
    ((λ k : nat, BASE_ADDRESS + 4 * Z.of_nat k) <$> seq 0 (Z.to_nat 245760)).
Proof.
  unfold new_search.
  change (uint32_wrap (BYTES_PER_CHUNK * 15)) with 983040.
  change (BYTES_PER_CHUNK * 15) with 983040.
  rewrite (new_search_loop_spec load min_val max_val 983040 ltac:(done)
             (Z.to_nat 245760) (Z.to_nat 983040) 0 []) by lia.
  reflexivity.
Qed.

Lemma continue_search_filter load min_val max_val cells :
  continue_search load min_val max_val cells =
  filter (λ a, in_interval min_val max_val (load a) = true) cells.
Proof.
  unfold continue_search. rewrite continue_loop_spec by lia.
  by rewrite take_0, drop_0.
Qed.

Lemma in_interval_true min_val max_val v :
  in_interval min_val max_val v = true ↔
  SFleb min_val v = true ∧ SFltb v max_val = true.
Proof. unfold in_interval. apply andb_true_iff. Qed.

(** *** The interval of the float search *)

(** The scan of the first five cells of the example memory for [1, 3): the
    cells of 1 and 2 are kept, those of 3, the NaN and 0 are not. *)
Example scan_example :
  new_search_loop example_load float_1 float_3 20 5 0 [] =
  [BASE_ADDRESS; BASE_ADDRESS + 4].
Proof. reflexivity. Qed.

Example continue_example :
  continue_search example_load float_2 float_3
    [BASE_ADDRESS; BASE_ADDRESS + 4; BASE_ADDRESS + 8; BASE_ADDRESS + 4;
     BASE_ADDRESS + 12] =
  [BASE_ADDRESS + 4; BASE_ADDRESS + 4].
Proof. reflexivity. Qed.

(** C10: the new-search scan keeps, of the 245760 cells from
    [BASE_ADDRESS] on, in 4-byte steps, exactly those whose value [v] has
    [min_val <= v] and [v < max_val]; the continue filter keeps, of the
    retained cells, exactly those with that property, in their order.  The
    upper bound is excluded, and the lower bound included whenever the
    interval is not empty.  So after a frame in which either button was
    pressed every retained cell has its value in the interval. *)
Theorem float_search_half_open load (min_val max_val : spec_float) :
  (∀ a, a ∈ new_search load min_val max_val ↔
        (∃ k, 0 ≤ k < 245760 ∧ a = BASE_ADDRESS + 4 * k) ∧
        SFleb min_val (load a) = true ∧ SFltb (load a) max_val = true) ∧
  (∀ cells a, a ∈ continue_search load min_val max_val cells ↔
        a ∈ cells ∧
        SFleb min_val (load a) = true ∧ SFltb (load a) max_val = true) ∧
  (∀ cells, continue_search load min_val max_val cells =
            filter (λ a, in_interval min_val max_val (load a) = true) cells) ∧
  in_interval min_val max_val max_val = false ∧
  in_interval min_val max_val min_val = SFltb min_val max_val ∧
  (∀ io cells a,
     frame_min io = min_val → frame_max io = max_val →
     new_search_pressed io = true ∨ continue_pressed io = true →
     a ∈ OnDraw_cells load io cells →
     SFleb min_val (load a) = true ∧ SFltb (load a) max_val = true).
Proof.
  split; [|split; [|split; [|split; [|split]]]].
  - intros a. rewrite new_search_filter, list_elem_of_filter,
      list_elem_of_fmap, in_interval_true.
    split.
    + intros [Hv (k & -> & Hk)]. apply elem_of_seq in Hk.
      split; [|exact Hv]. exists (Z.of_nat k). split; [lia | reflexivity].
    + intros [(k & Hk & ->) Hv]. split; [exact Hv|].
      exists (Z.to_nat k). split; [f_equal; lia|].
      apply elem_of_seq. lia.
  - intros cells a.
    rewrite continue_search_filter, list_elem_of_filter, in_interval_true.
    tauto.
  - apply continue_search_filter.
  - unfold in_interval. rewrite SFltb_irrefl. apply andb_false_r.
  - unfold in_interval, SFleb, SFltb.
    destruct (SFcompare_refl min_val) as [-> | Hnan]; [reflexivity|].
    destruct min_val as [s|s| |s m e]; try (destruct s; discriminate Hnan);
      reflexivity.
  - intros io cells a Hmin Hmax Hpressed. unfold OnDraw_cells.
    rewrite Hmin, Hmax.
    destruct (continue_pressed io).
    + rewrite continue_search_filter, list_elem_of_filter, in_interval_true.
      tauto.
    + destruct (new_search_pressed io); [|by destruct Hpressed].
      rewrite new_search_filter, list_elem_of_filter, in_interval_true.
      tauto.
Qed.

End MemorySearchFacts.
